(** * swnSQLite: the CRUD facade of [src/index.mts] over an abstract engine

    The class [swnSQLite] holds one private field, the database file name,
    and offers ten asynchronous methods.  Each method formats one statement,
    opens a handle on the file, hands the statement to the driver and closes
    the handle.  The driver (packages [sqlite] and [sqlite3]) is not part of
    the repository: it is a parameter of the development, the record
    [Engine].  An [await] that rejects throws, so the methods are programs of
    a state-and-exception monad over the process state. *)

From Stdlib Require Import ZArith String Ascii.
From stdpp Require Import base option list strings gmap fin_maps.

Local Open Scope string_scope.
Local Open Scope list_scope.

(** ** Values, rows, outcomes *)

(** The scalars a caller binds to placeholders ([any[]] in the source);
    numbers are kept integral. *)
Inductive Value : Type :=
  | VUndefined
  | VNull
  | VBool (b : bool)
  | VNum (z : Z)
  | VText (s : string).

(** A row is the object the driver builds: column name to value, in the
    order of the columns. *)
Definition Row : Type := list (string * Value).

Definition Error : Type := string.

(** What an awaited promise settles to. *)
Inductive Outcome (A : Type) : Type :=
  | Ok (a : A)
  | Raise (e : Error).
Arguments Ok {A} a.
Arguments Raise {A} e.

Definition is_ok {A} (o : Outcome A) : bool :=
  match o with Ok _ => true | Raise _ => false end.

Definition is_raise {A} (o : Outcome A) : bool := negb (is_ok o).

(** ** The engine, a parameter

    [exec q ps db] is the engine preparing statement [q], binding [ps] and
    stepping it to completion on the contents [db] of one database file: it
    answers the result set or raises, and leaves new contents.  [can_open]
    tells which file names the engine manages to open or create.  A
    statement that reaches a second file (ATTACH, VACUUM INTO) is outside
    this interface. *)
Record Engine : Type := {
  DB : Type;
  empty_db : DB;
  can_open : string → bool;
  exec : string → list Value → DB → Outcome (list Row) * DB
}.

(** ** Statement texts

    [Array.prototype.join] on an array of strings. *)
Fixpoint join (sep : string) (parts : list string) : string :=
  match parts with
  | [] => ""
  | [x] => x
  | x :: rest => x +:+ sep +:+ join sep rest
  end.

(** [values.map(() => '?').join(', ')] *)
Definition placeholders (values : list Value) : string :=
  join ", " (map (λ _, "?") values).

Definition createTable_query (tableName columns : string) : string :=
  "CREATE TABLE IF NOT EXISTS " +:+ tableName +:+ " (" +:+ columns +:+ ")".

Definition insert_query (tableName columns : string) (values : list Value)
  : string :=
  "INSERT INTO " +:+ tableName +:+ " (" +:+ columns +:+ ") VALUES ("
    +:+ placeholders values +:+ ")".

Definition update_query (tableName setValues condition : string) : string :=
  "UPDATE " +:+ tableName +:+ " SET " +:+ setValues +:+ " WHERE " +:+ condition.

Definition delete_query (tableName condition : string) : string :=
  "DELETE FROM " +:+ tableName +:+ " WHERE " +:+ condition.

Definition selectAll_query (tableName : string) : string :=
  "SELECT * FROM " +:+ tableName.

Definition selectWhere_query (tableName condition : string) : string :=
  "SELECT * FROM " +:+ tableName +:+ " WHERE " +:+ condition.

Definition selectAllOrdered_query (tableName orderBy : string) : string :=
  "SELECT * FROM " +:+ tableName +:+ " ORDER BY " +:+ orderBy.

(** How often a character occurs in a text. *)
Fixpoint count_char (c : ascii) (s : string) : nat :=
  match s with
  | EmptyString => 0
  | String d rest => (if Ascii.eqb c d then 1 else 0) + count_char c rest
  end.

(** ** The driver's special file names

    [':memory:'] and the empty name do not name a file: every [open] on
    them gives a database of its own, empty, that is gone when its handle
    is. *)
Definition transient (file : string) : bool :=
  String.eqb file ":memory:" || String.eqb file "".

(** ** The facade object *)

Record swnSQLite : Type := { dbName : string }.

(** [constructor(dbName) { this.dbName = dbName; }] *)
Definition constructor (name : string) : swnSQLite := {| dbName := name |}.

Section Facade.
Context (E : Engine).

(** ** Process state

    [this] is the facade instance, [disk] the database files, [handles] the
    handles that are open (each bound to the name it was opened on),
    [scratch] the databases of the handles opened on a transient name,
    [next_handle] the identity of the next handle [open] hands out. *)
Record Process : Type := {
  this : swnSQLite;
  disk : gmap string (DB E);
  handles : gmap nat string;
  scratch : gmap nat (DB E);
  next_handle : nat
}.

Definition M (A : Type) : Type := Process → Outcome A * Process.

#[export] Instance M_ret : MRet M := λ A a st, (Ok a, st).

(** [await]: a rejection skips the rest of the method body. *)
#[export] Instance M_bind : MBind M := λ A B k m st,
  match m st with
  | (Ok a, st') => k a st'
  | (Raise e, st') => (Raise e, st')
  end.

(** [this.dbName] *)
Definition this_dbName : M string := λ st, (Ok (dbName (this st)), st).

(** *** The driver calls *)

(** What a handle newly opened on [file] finds: nothing on a transient
    name, else what the file holds (nothing when it does not exist yet). *)
Definition contents (st : Process) (file : string) : DB E :=
  if transient file then empty_db E
  else default (empty_db E) (disk st !! file).

(** [open({ filename, driver })]: creates the file when it is absent, or
    an empty database of the handle's own on a transient name, and answers
    a fresh handle. *)
Definition sqlite_open (filename : string) : M nat :=
  λ st,
    if can_open E filename then
      let h := next_handle st in
      (Ok h, {| this := this st;
                disk := if transient filename then disk st
                        else <[filename := contents st filename]> (disk st);
                handles := <[h := filename]> (handles st);
                scratch := if transient filename
                           then <[h := empty_db E]> (scratch st)
                           else scratch st;
                next_handle := S h |})
    else (Raise "SQLITE_CANTOPEN", st).

(** One statement executed through handle [db]: on the handle's own
    database when it was opened on a transient name, else on the file. *)
Definition db_exec (db : nat) (query : string) (params : list Value)
  : M (list Row) :=
  λ st,
    match handles st !! db with
    | None => (Raise "SQLITE_MISUSE", st)
    | Some file =>
        if transient file then
          let r := exec E query params
                     (default (empty_db E) (scratch st !! db)) in
          (r.1, {| this := this st;
                   disk := disk st;
                   handles := handles st;
                   scratch := <[db := r.2]> (scratch st);
                   next_handle := next_handle st |})
        else
          let r := exec E query params (contents st file) in
          (r.1, {| this := this st;
                   disk := <[file := r.2]> (disk st);
                   handles := handles st;
                   scratch := scratch st;
                   next_handle := next_handle st |})
    end.

(** [db.run]: no rows are handed back. *)
Definition db_run (db : nat) (query : string) (params : list Value) : M unit :=
  db_exec db query params ≫= λ _, mret tt.

(** [db.all]: the whole result set. *)
Definition db_all (db : nat) (query : string) (params : list Value)
  : M (list Row) :=
  db_exec db query params.

(** [db.get]: the first row of the result set, [undefined] when it is
    empty. *)
Definition db_get (db : nat) (query : string) (params : list Value)
  : M (option Row) :=
  rows ← db_exec db query params; mret (head rows).

(** [db.close()] *)
Definition db_close (db : nat) : M unit :=
  λ st,
    match handles st !! db with
    | None => (Raise "SQLITE_MISUSE", st)
    | Some _ =>
        (Ok tt, {| this := this st;
                   disk := disk st;
                   handles := delete db (handles st);
                   scratch := delete db (scratch st);
                   next_handle := next_handle st |})
    end.

(** *** The three primitives

    A parameter list left out by the caller is [None]; the default
    [params = []] of the source fills it in. *)

Definition executeQuery (query : string) (params : option (list Value))
  : M unit :=
  let params := default [] params in
  name ← this_dbName;
  db ← sqlite_open name;
  db_run db query params;;
  db_close db.

Definition fetchAll (query : string) (params : option (list Value))
  : M (list Row) :=
  let params := default [] params in
  name ← this_dbName;
  db ← sqlite_open name;
  rows ← db_all db query params;
  db_close db;;
  mret rows.

Definition fetchOne (query : string) (params : option (list Value))
  : M (option Row) :=
  let params := default [] params in
  name ← this_dbName;
  db ← sqlite_open name;
  row ← db_get db query params;
  db_close db;;
  mret row.

(** *** The operations built on them *)

Definition createTable (tableName columns : string) : M unit :=
  let query := createTable_query tableName columns in
  executeQuery query None.

Definition insert (tableName columns : string) (values : list Value)
  : M unit :=
  let query := insert_query tableName columns values in
  executeQuery query (Some values).

Definition update (tableName setValues condition : string)
  (params : list Value) : M unit :=
  let query := update_query tableName setValues condition in
  executeQuery query (Some params).

(** [delete] of the source. *)
Definition delete_ (tableName condition : string) (params : list Value)
  : M unit :=
  let query := delete_query tableName condition in
  executeQuery query (Some params).

Definition selectAll (tableName : string) : M (list Row) :=
  let query := selectAll_query tableName in
  fetchAll query None.

Definition selectWhere (tableName condition : string) (params : list Value)
  : M (list Row) :=
  let query := selectWhere_query tableName condition in
  fetchAll query (Some params).

Definition selectAllOrdered (tableName orderBy : string) : M (list Row) :=
  let query := selectAllOrdered_query tableName orderBy in
  fetchAll query None.

(** *** Every operation, as one call

    [Call] lists the ten methods with their arguments, [Result] what a
    method resolves to, [perform] dispatches. *)
Inductive Call : Type :=
  | CExecuteQuery (query : string) (params : option (list Value))
  | CFetchAll (query : string) (params : option (list Value))
  | CFetchOne (query : string) (params : option (list Value))
  | CCreateTable (tableName columns : string)
  | CInsert (tableName columns : string) (values : list Value)
  | CUpdate (tableName setValues condition : string) (params : list Value)
  | CDelete (tableName condition : string) (params : list Value)
  | CSelectAll (tableName : string)
  | CSelectWhere (tableName condition : string) (params : list Value)
  | CSelectAllOrdered (tableName orderBy : string).

Inductive Result : Type :=
  | RVoid
  | RRows (rows : list Row)
  | RRow (row : option Row).

Definition perform (c : Call) : M Result :=
  match c with
  | CExecuteQuery q ps => executeQuery q ps;; mret RVoid
  | CFetchAll q ps => rows ← fetchAll q ps; mret (RRows rows)
  | CFetchOne q ps => row ← fetchOne q ps; mret (RRow row)
  | CCreateTable t cols => createTable t cols;; mret RVoid
  | CInsert t cols vs => insert t cols vs;; mret RVoid
  | CUpdate t sv cond ps => update t sv cond ps;; mret RVoid
  | CDelete t cond ps => delete_ t cond ps;; mret RVoid
  | CSelectAll t => rows ← selectAll t; mret (RRows rows)
  | CSelectWhere t cond ps => rows ← selectWhere t cond ps; mret (RRows rows)
  | CSelectAllOrdered t ob => rows ← selectAllOrdered t ob; mret (RRows rows)
  end.

(** A process that has just built its facade: no file, no handle. *)
Definition boot (o : swnSQLite) : Process :=
  {| this := o; disk := ∅; handles := ∅; scratch := ∅; next_handle := 0 |}.

End Facade.

Arguments this {E} _.
Arguments disk {E} _.
Arguments handles {E} _.
Arguments scratch {E} _.
Arguments next_handle {E} _.

(** ** A small engine to run the facade on

    An in-memory engine that understands three statement shapes,
    [CREATE TABLE IF NOT EXISTS t (..)], [INSERT INTO t (c, ..) VALUES (?, ..)]
    and [SELECT * FROM t], and raises a syntax error on anything else.  It
    serves to evaluate the facade on concrete calls. *)
Module Mem.

(** Table name to rows. *)
Abbreviation Tables := (gmap string (list Row)).

Fixpoint strip_prefix (p s : string) : option string :=
  match p, s with
  | EmptyString, _ => Some s
  | String a p', String b s' =>
      if Ascii.eqb a b then strip_prefix p' s' else None
  | String _ _, EmptyString => None
  end.

(** The text before the first [c] and the text after it. *)
Fixpoint until_char (c : ascii) (s : string) : option (string * string) :=
  match s with
  | EmptyString => None
  | String d rest =>
      if Ascii.eqb c d then Some (EmptyString, rest)
      else match until_char c rest with
           | Some (w, tl) => Some (String d w, tl)
           | None => None
           end
  end.

(** Items of a [", "]-separated list; the empty text has no item. *)
Fixpoint items_from (cur : string) (s : string) : list string :=
  match s with
  | EmptyString => [cur]
  | String "," (String " " rest) => cur :: items_from EmptyString rest
  | String d rest => items_from (cur +:+ String d EmptyString) rest
  end.

Definition items (s : string) : list string :=
  match s with
  | EmptyString => []
  | _ => items_from EmptyString s
  end.

Definition syntax_error : Error := "SQLITE_ERROR: syntax error".

Definition exec_create (rest : string) (db : Tables)
  : Outcome (list Row) * Tables :=
  match until_char " " rest with
  | Some (name, tl) =>
      match strip_prefix "(" tl with
      | Some _ =>
          match db !! name with
          | Some _ => (Ok [], db)
          | None => (Ok [], <[name := []]> db)
          end
      | None => (Raise syntax_error, db)
      end
  | None => (Raise syntax_error, db)
  end.

Definition exec_insert (rest : string) (params : list Value) (db : Tables)
  : Outcome (list Row) * Tables :=
  match until_char " " rest with
  | Some (name, tl) =>
      match strip_prefix "(" tl ≫= until_char ")" with
      | Some (cols, tl) =>
          match strip_prefix " VALUES (" tl ≫= until_char ")" with
          | Some (marks, EmptyString) =>
              let cols := items cols in
              let marks := items marks in
              if bool_decide (marks = []) then (Raise syntax_error, db)
              else if negb (forallb (String.eqb "?") marks)
              then (Raise syntax_error, db)
              else if negb (length marks =? length cols)%nat
              then (Raise "SQLITE_ERROR: values for columns", db)
              else if negb (length params =? length marks)%nat
              then (Raise "SQLITE_RANGE: column index out of range", db)
              else match db !! name with
                   | Some rows =>
                       (Ok [], <[name := rows ++ [zip cols params]]> db)
                   | None => (Raise "SQLITE_ERROR: no such table", db)
                   end
          | _ => (Raise syntax_error, db)
          end
      | None => (Raise syntax_error, db)
      end
  | None => (Raise syntax_error, db)
  end.

Definition exec_select (name : string) (db : Tables)
  : Outcome (list Row) * Tables :=
  match until_char " " name with
  | Some _ => (Raise syntax_error, db)
  | None =>
      match db !! name with
      | Some rows => (Ok rows, db)
      | None => (Raise "SQLITE_ERROR: no such table", db)
      end
  end.

Definition run_statement (query : string) (params : list Value)
  (db : Tables) : Outcome (list Row) * Tables :=
  match strip_prefix "CREATE TABLE IF NOT EXISTS " query with
  | Some rest => exec_create rest db
  | None =>
      match strip_prefix "INSERT INTO " query with
      | Some rest => exec_insert rest params db
      | None =>
          match strip_prefix "SELECT * FROM " query with
          | Some rest => exec_select rest db
          | None => (Raise syntax_error, db)
          end
      end
  end.

(** Every file name but the empty one can be opened. *)
Definition engine : Engine :=
  {| DB := Tables;
     empty_db := ∅;
     can_open := λ f, negb (String.eqb f "");
     exec := run_statement |}.

End Mem.

(** ** A second engine, lenient as the driver is

    It reads the statements of the small engine and, as SQLite does behind
    the driver, takes [--] to open a comment that runs to the end of the
    text, binds NULL to a placeholder that no value was given for, and
    knows [INSERT INTO t DEFAULT VALUES].  It opens every name. *)
Module Lax.

Fixpoint strip_comment (s : string) : string :=
  match s with
  | EmptyString => EmptyString
  | String "-" (String "-" _) => EmptyString
  | String d rest => String d (strip_comment rest)
  end.

(** Without the spaces at the end. *)
Fixpoint rstrip (s : string) : string :=
  match s with
  | EmptyString => EmptyString
  | String d rest =>
      match rstrip rest with
      | EmptyString =>
          if Ascii.eqb d " " then EmptyString else String d EmptyString
      | r => String d r
      end
  end.

Definition exec_insert (rest : string) (params : list Value)
  (db : Mem.Tables) : Outcome (list Row) * Mem.Tables :=
  match Mem.until_char " " rest with
  | Some (name, tl) =>
      if String.eqb tl "DEFAULT VALUES" then
        match db !! name with
        | Some rows => (Ok [], <[name := rows ++ [[]]]> db)
        | None => (Raise "SQLITE_ERROR: no such table", db)
        end
      else
        match Mem.strip_prefix "(" tl ≫= Mem.until_char ")" with
        | Some (cols, tl) =>
            match Mem.strip_prefix " VALUES (" tl ≫= Mem.until_char ")" with
            | Some (marks, EmptyString) =>
                let cols := Mem.items cols in
                let marks := Mem.items marks in
                if bool_decide (marks = []) then (Raise Mem.syntax_error, db)
                else if negb (forallb (String.eqb "?") marks)
                then (Raise Mem.syntax_error, db)
                else if negb (length marks =? length cols)%nat
                then (Raise "SQLITE_ERROR: values for columns", db)
                else if (length marks <? length params)%nat
                then (Raise "SQLITE_RANGE: column index out of range", db)
                else
                  let bound :=
                    params ++ replicate (length marks - length params) VNull in
                  match db !! name with
                  | Some rows => (Ok [], <[name := rows ++ [zip cols bound]]> db)
                  | None => (Raise "SQLITE_ERROR: no such table", db)
                  end
            | _ => (Raise Mem.syntax_error, db)
            end
        | None => (Raise Mem.syntax_error, db)
        end
  | None => (Raise Mem.syntax_error, db)
  end.

Definition run_statement (query : string) (params : list Value)
  (db : Mem.Tables) : Outcome (list Row) * Mem.Tables :=
  let query := rstrip (strip_comment query) in
  match Mem.strip_prefix "CREATE TABLE IF NOT EXISTS " query with
  | Some rest => Mem.exec_create rest db
  | None =>
      match Mem.strip_prefix "INSERT INTO " query with
      | Some rest => exec_insert rest params db
      | None =>
          match Mem.strip_prefix "SELECT * FROM " query with
          | Some rest => Mem.exec_select rest db
          | None => (Raise Mem.syntax_error, db)
          end
      end
  end.

Definition engine : Engine :=
  {| DB := Mem.Tables;
     empty_db := ∅;
     can_open := λ _, true;
     exec := run_statement |}.

End Lax.

(** ** Notions the statements below are written with *)
Section Notions.
Context (E : Engine).

(** The file of the instance can be opened. *)
Definition openable (st : Process E) : bool :=
  can_open E (dbName (this st)).

(** What the engine answers for a statement on the instance's file. *)
Definition answer (st : Process E) (query : string) (params : list Value)
  : Outcome (list Row) :=
  (exec E query params (contents E st (dbName (this st)))).1.

(** The query can be run and its result set is empty. *)
Definition matches_zero_rows (st : Process E) (query : string)
  (params : list Value) : Prop :=
  openable st = true ∧ answer st query params = Ok [].

(** The process after a call whose handle was closed, and after a call
    that left its handle open; [db'] is what the statement left: in the
    file, or in the handle's own database on a transient name. *)
Definition released (st : Process E) (db' : DB E) : Process E :=
  {| this := this st;
     disk := if transient (dbName (this st)) then disk st
             else <[dbName (this st) := db']> (disk st);
     handles := delete (next_handle st) (handles st);
     scratch := delete (next_handle st) (scratch st);
     next_handle := S (next_handle st) |}.

Definition leaked (st : Process E) (db' : DB E) : Process E :=
  {| this := this st;
     disk := if transient (dbName (this st)) then disk st
             else <[dbName (this st) := db']> (disk st);
     handles := <[next_handle st := dbName (this st)]> (handles st);
     scratch := if transient (dbName (this st))
                then <[next_handle st := db']> (scratch st)
                else scratch st;
     next_handle := S (next_handle st) |}.

(** One open, one statement, one close: the shape every method has. *)
Definition session {A} (post : list Row → A) (query : string)
  (params : list Value) (st : Process E) : Outcome A * Process E :=
  if openable st then
    let r := exec E query params (contents E st (dbName (this st))) in
    match r.1 with
    | Ok rows => (Ok (post rows), released st r.2)
    | Raise e => (Raise e, leaked st r.2)
    end
  else (Raise "SQLITE_CANTOPEN", st).

(** The statement and the parameters a call hands to the engine, and what
    it makes of the result set. *)
Definition statement_of (c : Call) : string * list Value :=
  match c with
  | CExecuteQuery q ps | CFetchAll q ps | CFetchOne q ps => (q, default [] ps)
  | CCreateTable t cols => (createTable_query t cols, [])
  | CInsert t cols vs => (insert_query t cols vs, vs)
  | CUpdate t sv cond ps => (update_query t sv cond, ps)
  | CDelete t cond ps => (delete_query t cond, ps)
  | CSelectAll t => (selectAll_query t, [])
  | CSelectWhere t cond ps => (selectWhere_query t cond, ps)
  | CSelectAllOrdered t ob => (selectAllOrdered_query t ob, [])
  end.

Definition result_of (c : Call) (rows : list Row) : Result :=
  match c with
  | CExecuteQuery _ _ | CCreateTable _ _ | CInsert _ _ _
  | CUpdate _ _ _ _ | CDelete _ _ _ => RVoid
  | CFetchOne _ _ => RRow (head rows)
  | CFetchAll _ _ | CSelectAll _ | CSelectWhere _ _ _
  | CSelectAllOrdered _ _ => RRows rows
  end.

(** The handle a call opens is [next_handle] of the state it starts in. *)
Definition handle_released (c : Call) (st : Process E) : Prop :=
  handles (perform E c st).2 !! next_handle st = None.

Definition handle_left_open (c : Call) (st : Process E) : Prop :=
  handles (perform E c st).2 !! next_handle st = Some (dbName (this st)).

(** Handle identities in use lie below the counter, so the next one is new. *)
Definition fresh_handles (st : Process E) : Prop :=
  ∀ h, is_Some (handles st !! h) → h < next_handle st.

(** Engine contract: a statement that was accepted once, without
    parameters, is accepted again on the contents it left. *)
Definition accepts_again (query : string) : Prop :=
  ∀ db rows db',
    exec E query [] db = (Ok rows, db') →
    is_ok (exec E query [] db').1 = true.

(** The same process with other handles in flight. *)
Definition with_handles (st : Process E) (hs : gmap nat string)
  (sc : gmap nat (DB E)) (n : nat) : Process E :=
  {| this := this st; disk := disk st; handles := hs; scratch := sc;
     next_handle := n |}.

End Notions.

Arguments released {E} _ _.
Arguments leaked {E} _ _.
Arguments session {E A} _ _ _ _.

(** ** Two concrete processes on the small engine *)

(** [new swnSQLite('example.db')] in a process with nothing on disk. *)
Definition example_db : Process Mem.engine :=
  boot Mem.engine (constructor "example.db").

(** The same after
    [createTable('users', 'name TEXT, email TEXT')]. *)
Definition users_db : Process Mem.engine :=
  (createTable Mem.engine "users" "name TEXT, email TEXT" example_db).2.

(** The table [users] on the lenient engine. *)
Definition lax_users_db : Process Lax.engine :=
  (createTable Lax.engine "users" "name TEXT, email TEXT"
     (boot Lax.engine (constructor "example.db"))).2.

(** [new swnSQLite(':memory:')] on the small engine. *)
Definition memory_db : Process Mem.engine :=
  boot Mem.engine (constructor ":memory:").

(** ** Calls one after the other

    A caller that awaits each call in turn and goes on whatever the call
    settled to: [calls] is the process it ends in, [failures] how many of
    the calls raised. *)
Section Scripts.
Context (E : Engine).

Fixpoint calls (cs : list Call) (st : Process E) : Process E :=
  match cs with
  | [] => st
  | c :: cs => calls cs (perform E c st).2
  end.

Fixpoint failures (cs : list Call) (st : Process E) : nat :=
  match cs with
  | [] => 0
  | c :: cs =>
      (if is_ok (perform E c st).1 then 0 else 1)
      + failures cs (perform E c st).2
  end.

End Scripts.

(** A script on the small engine: the second and the fourth call raise. *)
Definition example_script : list Call :=
  [ CCreateTable "users" "name TEXT, email TEXT";
    CInsert "users" "name, email" [VText "suwanohiro"];
    CSelectAll "users";
    CSelectAll "missing" ].

(** ** The primitives are sessions *)
Section Sessions.
Context (E : Engine).
Implicit Types (st : Process E) (q : string) (ps : option (list Value)).

Local Ltac run_session :=
  intros;
  unfold session, openable, released, leaked, db_run, db_all, db_get,
    db_exec, db_close, sqlite_open, this_dbName, contents,
    mbind, M_bind, mret, M_ret;
  cbn;
  repeat (first
    [ progress rewrite ?lookup_insert_eq, ?insert_insert_eq,
        ?delete_insert_eq
    | progress cbn
    | match goal with
      | |- context [if ?b then _ else _] => destruct b eqn:?
      | |- context [match (exec ?e ?a ?b ?c).1 with _ => _ end] =>
          destruct (exec e a b c).1 eqn:?
      end ]);
  try reflexivity.

Lemma executeQuery_session q ps st :
  executeQuery E q ps st = session (λ _, tt) q (default [] ps) st.
Proof. unfold executeQuery. run_session. Qed.

Lemma fetchAll_session q ps st :
  fetchAll E q ps st = session id q (default [] ps) st.
Proof. unfold fetchAll. run_session. Qed.

Lemma fetchOne_session q ps st :
  fetchOne E q ps st = session head q (default [] ps) st.
Proof. unfold fetchOne. run_session. Qed.

(** Every operation runs exactly one statement in one session. *)
Lemma perform_session (c : Call) st :
  perform E c st =
  session (result_of c) (statement_of c).1 (statement_of c).2 st.
Proof.
  destruct c; cbn [perform statement_of result_of fst snd];
    unfold createTable, insert, update, delete_, selectAll, selectWhere,
      selectAllOrdered, mbind, M_bind, mret, M_ret;
    rewrite ?executeQuery_session, ?fetchAll_session, ?fetchOne_session;
    cbn [default]; unfold session;
    destruct (openable E st); try reflexivity; cbn;
    match goal with
    | |- context [(exec ?e ?a ?b ?c).1] => destruct (exec e a b c).1
    end; reflexivity.
Qed.

End Sessions.

(** ** Handles: released on success, left open on failure *)
Section Handles.
Context (E : Engine).
Implicit Types (st : Process E) (c : Call).

Lemma session_ok_released {A} (post : list Row → A) q ps st a :
  (session post q ps st).1 = Ok a →
  handles (session post q ps st).2 !! next_handle st = None.
Proof.
  unfold session. destruct (openable E st); [|discriminate].
  cbn. destruct (exec E q ps _).1; [|discriminate].
  intros _. cbn. apply lookup_delete_eq.
Qed.

Lemma session_raise_left_open {A} (post : list Row → A) q ps st e :
  openable E st = true →
  (session post q ps st).1 = Raise e →
  handles (session post q ps st).2 !! next_handle st
    = Some (dbName (this st)).
Proof.
  unfold session. intros ->. cbn.
  destruct (exec E q ps _).1; [discriminate|].
  intros _. cbn. apply lookup_insert_eq.
Qed.

Lemma session_cannot_open {A} (post : list Row → A) q ps st :
  openable E st = false →
  session post q ps st = (Raise "SQLITE_CANTOPEN", st).
Proof. unfold session. by intros ->. Qed.

(** C1, as amended.  A call that succeeds has closed the handle it opened.
    A call that fails has not: when the file could be opened the handle is
    still open on return, because the statement raised before [close] was
    reached; when the file could not be opened there is no handle and the
    process is as it was. *)
Theorem handle_closed_on_success_only c st :
  match (perform E c st).1 with
  | Ok _ => handle_released E c st
  | Raise e =>
      if openable E st then handle_left_open E c st
      else perform E c st = (Raise "SQLITE_CANTOPEN", st)
  end.
Proof.
  unfold handle_released, handle_left_open.
  rewrite perform_session.
  destruct (session _ _ _ st).1 as [r|e] eqn:Hrun.
  - by eapply session_ok_released.
  - destruct (openable E st) eqn:Hopen.
    + by eapply session_raise_left_open.
    + by apply session_cannot_open.
Qed.

(** In a process whose handle counter is ahead of the open handles, which
    [boot] starts and every call keeps, a call that succeeds leaves exactly
    the handles it found. *)
Lemma boot_fresh o : fresh_handles E (boot E o).
Proof. intros h [f Hf]. cbn in Hf. by rewrite lookup_empty in Hf. Qed.

Lemma perform_fresh c st :
  fresh_handles E st → fresh_handles E (perform E c st).2.
Proof.
  intros Hfresh. rewrite perform_session. unfold session.
  destruct (openable E st); [|done].
  cbn zeta.
  destruct (exec E _ _ _).1; unfold fresh_handles, released, leaked; cbn;
    intros h.
  - rewrite lookup_delete_is_Some. intros [_ Hh]. specialize (Hfresh h Hh). lia.
  - rewrite lookup_insert_is_Some. intros [<-|[_ Hh]]; [lia|].
    specialize (Hfresh h Hh). lia.
Qed.

Lemma handles_restored_on_success c st :
  fresh_handles E st →
  is_ok (perform E c st).1 = true →
  handles (perform E c st).2 = handles st.
Proof.
  intros Hfresh. rewrite perform_session. unfold session.
  destruct (openable E st); [|discriminate].
  cbn zeta. destruct (exec E _ _ _).1; [|discriminate].
  intros _. unfold released. cbn. apply delete_id.
  destruct (handles st !! next_handle st) as [f|] eqn:Hh; [|done].
  specialize (Hfresh (next_handle st) (mk_is_Some _ _ Hh)). lia.
Qed.

End Handles.

(** C1, as stated, fails: inserting into a table that does not exist raises,
    and the handle opened for the call is still open afterwards. *)
Lemma handle_not_released_on_failure :
  (perform Mem.engine (CInsert "users" "name" [VText "suwanohiro"])
     example_db).1 = Raise "SQLITE_ERROR: no such table"
  ∧ ¬ handle_released Mem.engine
        (CInsert "users" "name" [VText "suwanohiro"]) example_db.
Proof.
  split; [reflexivity|].
  unfold handle_released. vm_compute. discriminate.
Qed.

(** ** Statement texts *)
Section Texts.

Lemma count_char_append c (a b : string) :
  count_char c (a +:+ b) = count_char c a + count_char c b.
Proof.
  induction a as [|d a IH]; [done|].
  change (String d a +:+ b) with (String d (a +:+ b)).
  cbn [count_char]. rewrite IH. lia.
Qed.

Lemma map_mark_replicate (values : list Value) :
  map (λ _, "?") values = replicate (length values) "?".
Proof. induction values as [|v values IH]; cbn; [done|]. by rewrite IH. Qed.

Lemma count_marks_join n :
  count_char "?" (join ", " (replicate n "?")) = n.
Proof.
  induction n as [|n IH]; [done|].
  destruct n as [|n]; [done|].
  replace (join ", " (replicate (S (S n)) "?"))
    with ("?, " +:+ join ", " (replicate (S n) "?")) by reflexivity.
  rewrite count_char_append, IH. reflexivity.
Qed.

Lemma placeholders_replicate values :
  placeholders values = join ", " (replicate (length values) "?").
Proof. unfold placeholders. by rewrite map_mark_replicate. Qed.

Lemma count_marks_placeholders values :
  count_char "?" (placeholders values) = length values.
Proof. rewrite placeholders_replicate. apply count_marks_join. Qed.

End Texts.

(** ** insert *)
Section Insert.
Context (E : Engine).

(** What a session settles to: the answer of the engine, or the failure to
    open. *)
Lemma session_outcome {A} (post : list Row → A) q ps (st : Process E) :
  (session post q ps st).1
  = if openable E st then
      match answer E st q ps with
      | Ok rows => Ok (post rows)
      | Raise e => Raise e
      end
    else Raise "SQLITE_CANTOPEN".
Proof.
  unfold session, answer. destruct (openable E st); [|done].
  cbn zeta. by destruct (exec E q ps _).1.
Qed.

(** C2, as amended.  [insert] builds one ["?"] per value, joined by [", "]:
    nothing for no value, ["?"] for one, ["?, "] before the placeholders of
    the rest otherwise.  The placeholder text holds as many marks as there
    are values and the statement is the INSERT text around it, so the marks
    of the statement are those of the table name and of the column text and
    one per value: exactly one per value when these two texts hold none.
    The values are bound unchanged.  [insert] compares no counts: it fails
    when the file cannot be opened or the engine raises on the statement,
    with the engine's error, and succeeds otherwise. *)
Theorem insert_one_placeholder_per_value tableName columns values :
  placeholders values
    = match values with
      | [] => ""
      | [_] => "?"
      | _ :: rest => "?, " +:+ placeholders rest
      end
  ∧ placeholders values = join ", " (replicate (length values) "?")
  ∧ count_char "?" (placeholders values) = length values
  ∧ insert_query tableName columns values
      = "INSERT INTO " +:+ tableName +:+ " (" +:+ columns +:+ ") VALUES ("
          +:+ join ", " (replicate (length values) "?") +:+ ")"
  ∧ count_char "?" (insert_query tableName columns values)
      = count_char "?" tableName + count_char "?" columns + length values
  ∧ (count_char "?" tableName = 0 →
     count_char "?" columns = 0 →
     count_char "?" (insert_query tableName columns values) = length values)
  ∧ (∀ st, insert E tableName columns values st
           = executeQuery E (insert_query tableName columns values)
               (Some values) st)
  ∧ (∀ st : Process E,
       if openable E st then
         (insert E tableName columns values st).1
         = match
             answer E st (insert_query tableName columns values) values
           with
           | Ok _ => Ok tt
           | Raise e => Raise e
           end
       else is_ok (insert E tableName columns values st).1 = false).
Proof.
  assert (Hcount : count_char "?" (insert_query tableName columns values)
            = count_char "?" tableName + count_char "?" columns
              + length values).
  { unfold insert_query.
    rewrite !count_char_append, count_marks_placeholders. cbn. lia. }
  split_and!.
  - by destruct values as [|v [|w rest]].
  - apply placeholders_replicate.
  - apply count_marks_placeholders.
  - unfold insert_query. by rewrite placeholders_replicate.
  - exact Hcount.
  - intros Ht Hc. rewrite Hcount. lia.
  - reflexivity.
  - intros st. unfold insert.
    rewrite executeQuery_session, session_outcome.
    by destruct (openable E st).
Qed.

End Insert.

(** C2 at work: two values, two placeholders joined by [", "], and no other
    mark in the statement. *)
Lemma insert_one_placeholder_per_value_witness :
  insert_query "users" "name, email" [VText "a"; VText "b"]
    = "INSERT INTO users (name, email) VALUES (?, ?)"
  ∧ count_char "?" (insert_query "users" "name, email" [VText "a"; VText "b"])
    = 2.
Proof.
  split; [reflexivity|].
  apply (insert_one_placeholder_per_value Mem.engine
           "users" "name, email" [VText "a"; VText "b"]);
    reflexivity.
Defined.

(** C2, as stated, fails.  A column text that brings placeholders of its own
    and comments out the rest gives a statement of three marks, two of them
    read by the engine, for one value; the value count differs from the
    placeholder count and the call succeeds, the engine binding NULL to the
    placeholder left over. *)
Lemma insert_counts_differ_and_succeeds :
  insert_query "users" "name, email) VALUES (?, ?) --" [VText "a"]
    = "INSERT INTO users (name, email) VALUES (?, ?) --) VALUES (?)"
  ∧ count_char "?"
      (insert_query "users" "name, email) VALUES (?, ?) --" [VText "a"])
    ≠ length [VText "a"]
  ∧ (insert Lax.engine "users" "name, email) VALUES (?, ?) --" [VText "a"]
       lax_users_db).1 = Ok tt
  ∧ (selectAll Lax.engine "users"
       (insert Lax.engine "users" "name, email) VALUES (?, ?) --" [VText "a"]
          lax_users_db).2).1
    = Ok [[("name", VText "a"); ("email", VNull)]].
Proof.
  split_and!; [reflexivity| |reflexivity|reflexivity].
  vm_compute. lia.
Qed.

(** ** The select variants *)
Section Select.
Context (E : Engine).

(** C4.  Each select variant is [fetchAll] on its SELECT text: [selectAll]
    and [selectAllOrdered] with an empty parameter list, [selectWhere] with
    the parameters it was given. *)
Theorem select_variants_are_fetchAll
  (t c o : string) (p : list Value) (st : Process E) :
  selectAll E t st = fetchAll E ("SELECT * FROM " +:+ t) (Some []) st
  ∧ selectWhere E t c p st
      = fetchAll E ("SELECT * FROM " +:+ t +:+ " WHERE " +:+ c) (Some p) st
  ∧ selectAllOrdered E t o st
      = fetchAll E ("SELECT * FROM " +:+ t +:+ " ORDER BY " +:+ o)
          (Some []) st.
Proof.
  unfold selectAll, selectWhere, selectAllOrdered,
    selectAll_query, selectWhere_query, selectAllOrdered_query.
  rewrite !fetchAll_session. split_and!; reflexivity.
Qed.

End Select.

(** ** Queries that match nothing *)
Section ZeroRows.
Context (E : Engine).

(** C5.  On a query whose result set is empty [fetchOne] resolves to
    [undefined] and [fetchAll] to the empty sequence; neither raises. *)
Theorem zero_rows_is_not_an_error
  (query : string) (params : option (list Value)) (st : Process E) :
  matches_zero_rows E st query (default [] params) →
  (fetchOne E query params st).1 = Ok None
  ∧ (fetchAll E query params st).1 = Ok [].
Proof.
  intros [Hopen Hans].
  rewrite fetchOne_session, fetchAll_session.
  unfold session, answer in *. rewrite Hopen. cbn.
  rewrite Hans. by split.
Qed.

End ZeroRows.

(** C5 at work: the table [users] exists and is empty. *)
Lemma zero_rows_is_not_an_error_witness :
  matches_zero_rows Mem.engine users_db "SELECT * FROM users" []
  ∧ (fetchOne Mem.engine "SELECT * FROM users" None users_db).1 = Ok None
  ∧ (fetchAll Mem.engine "SELECT * FROM users" None users_db).1 = Ok [].
Proof.
  assert (Hz : matches_zero_rows Mem.engine users_db "SELECT * FROM users" [])
    by (split; reflexivity).
  split; [exact Hz|].
  exact (zero_rows_is_not_an_error Mem.engine
           "SELECT * FROM users" None users_db Hz).
Defined.

(** ** The facade object *)
Section Stateless.
Context (E : Engine).

Lemma session_this {A} (post : list Row → A) q ps (st : Process E) :
  this (session post q ps st).2 = this st.
Proof.
  unfold session. destruct (openable E st); [|done].
  cbn. by destruct (exec E q ps _).1.
Qed.

Lemma session_with_handles {A} (post : list Row → A) q ps
  (st : Process E) hs sc n :
  (session post q ps (with_handles E st hs sc n)).1 = (session post q ps st).1
  ∧ disk (session post q ps (with_handles E st hs sc n)).2
      = disk (session post q ps st).2.
Proof.
  unfold session, openable, contents. cbn.
  destruct (can_open E _); [|done].
  by destruct (exec E q ps _).1.
Qed.

Lemma session_raise_handles {A} (post : list Row → A) q ps (st : Process E) :
  openable E st = true →
  is_ok (session post q ps st).1 = false →
  handles (session post q ps st).2
  = <[next_handle st := dbName (this st)]> (handles st).
Proof.
  unfold session. intros ->. cbn zeta. by destruct (exec E q ps _).1.
Qed.

(** C9, as amended.  The instance is its file name and nothing else: the
    constructor stores the name, an instance is determined by it, no
    operation changes the instance, and what an operation answers and
    leaves on disk does not depend on anything else the process holds (the
    handles of earlier calls, their databases, the handle counter).  The
    process does hold more than the instance, the handles that are open,
    and operations do change that: a call that succeeds leaves the open
    handles as it found them, a call whose statement raises leaves one more
    handle open, and a call on a file that cannot be opened changes
    nothing. *)
Theorem facade_keeps_only_dbName :
  (∀ name, dbName (constructor name) = name)
  ∧ (∀ o : swnSQLite, o = constructor (dbName o))
  ∧ (∀ (c : Call) (st : Process E), this (perform E c st).2 = this st)
  ∧ (∀ (c : Call) (st : Process E) hs sc n,
       (perform E c (with_handles E st hs sc n)).1 = (perform E c st).1
       ∧ disk (perform E c (with_handles E st hs sc n)).2
           = disk (perform E c st).2)
  ∧ (∀ (c : Call) (st : Process E),
       fresh_handles E st →
       is_ok (perform E c st).1 = true →
       handles (perform E c st).2 = handles st)
  ∧ (∀ (c : Call) (st : Process E),
       openable E st = true →
       is_ok (perform E c st).1 = false →
       handles (perform E c st).2
       = <[next_handle st := dbName (this st)]> (handles st))
  ∧ (∀ (c : Call) (st : Process E),
       openable E st = false → (perform E c st).2 = st).
Proof.
  split_and!.
  - reflexivity.
  - by intros [name].
  - intros c st. rewrite perform_session. apply session_this.
  - intros c st hs sc n. rewrite !perform_session.
    apply session_with_handles.
  - intros c st. apply handles_restored_on_success.
  - intros c st. rewrite perform_session. apply session_raise_handles.
  - intros c st Hopen. by rewrite perform_session, session_cannot_open.
Qed.

End Stateless.

(** C9 at work: a select from a table that does not exist raises and
    leaves handle 0 open. *)
Lemma facade_keeps_only_dbName_witness :
  handles (perform Mem.engine (CSelectAll "missing") example_db).2
  = <[0 := "example.db"]> (handles example_db).
Proof.
  apply (facade_keeps_only_dbName Mem.engine); reflexivity.
Defined.

(** C9, as stated, fails: a call that raises changes what the process holds
    besides the instance, the open handles. *)
Lemma failed_call_changes_open_handles :
  this (perform Mem.engine (CSelectAll "missing") example_db).2
    = this example_db
  ∧ handles (perform Mem.engine (CSelectAll "missing") example_db).2
    ≠ handles example_db.
Proof.
  split; [reflexivity|].
  intros Heq.
  assert (Hl : handles (perform Mem.engine (CSelectAll "missing")
                          example_db).2 !! 0
               = handles example_db !! 0) by by rewrite Heq.
  vm_compute in Hl. discriminate.
Qed.

(** ** createTable twice *)
Section CreateTable.
Context (E : Engine).

Lemma session_ok_inv {A} (post : list Row → A) q ps (st : Process E) :
  is_ok (session post q ps st).1 = true →
  openable E st = true
  ∧ ∃ rows db',
      exec E q ps (contents E st (dbName (this st))) = (Ok rows, db')
      ∧ (session post q ps st).2 = released st db'.
Proof.
  unfold session. destruct (openable E st); [|discriminate].
  cbn. destruct (exec E q ps _) as [[rows|e] db'] eqn:Hexec; [|discriminate].
  intros _. split; [done|]. by exists rows, db'.
Qed.

Lemma contents_released (st : Process E) db' :
  contents E (released st db') (dbName (this (released st db')))
  = if transient (dbName (this st)) then empty_db E else db'.
Proof.
  unfold contents, released. cbn.
  destruct (transient _); [done|]. by rewrite lookup_insert_eq.
Qed.

Lemma contents_transient (st : Process E) :
  transient (dbName (this st)) = true →
  contents E st (dbName (this st)) = empty_db E.
Proof. unfold contents. by intros ->. Qed.

(** C3.  [createTable] issues
    [CREATE TABLE IF NOT EXISTS <tableName> (<columns>)] and, the engine
    accepting such a statement again once it has accepted it, a second
    call with the same arguments succeeds when the first did. *)
Theorem createTable_idempotent (tableName columns : string) (st : Process E) :
  createTable_query tableName columns
    = "CREATE TABLE IF NOT EXISTS " +:+ tableName +:+ " (" +:+ columns +:+ ")"
  ∧ (∀ st, createTable E tableName columns st
           = executeQuery E (createTable_query tableName columns) None st)
  ∧ (accepts_again E (createTable_query tableName columns) →
     is_ok (createTable E tableName columns st).1 = true →
     is_ok (createTable E tableName columns
              (createTable E tableName columns st).2).1 = true).
Proof.
  split_and!; [reflexivity|reflexivity|].
  intros Hagain. unfold createTable.
  rewrite !executeQuery_session. cbn [default].
  intros Hfirst.
  destruct (session_ok_inv _ _ _ _ Hfirst) as (Hopen & rows & db' & Hexec & ->).
  unfold session at 1.
  change (openable E (released st db')) with (openable E st).
  rewrite Hopen. cbn zeta. rewrite contents_released.
  destruct (transient (dbName (this st))) eqn:Htr.
  - rewrite contents_transient in Hexec by done. by rewrite Hexec.
  - specialize (Hagain _ _ _ Hexec).
    by destruct (exec E _ [] db').1.
Qed.

End CreateTable.

(** C3 at work on the small engine. *)
Lemma createTable_idempotent_witness :
  is_ok (createTable Mem.engine "users" "name TEXT, email TEXT"
           example_db).1 = true
  ∧ is_ok (createTable Mem.engine "users" "name TEXT, email TEXT"
             users_db).1 = true.
Proof.
  split; [reflexivity|].
  apply (createTable_idempotent Mem.engine
           "users" "name TEXT, email TEXT" example_db).
  - intros db rows db' _.
    change (is_ok (Mem.exec_create "users (name TEXT, email TEXT)" db').1
            = true).
    unfold Mem.exec_create.
    cbn [Mem.until_char Mem.strip_prefix Ascii.eqb Bool.eqb].
    by case_match.
  - reflexivity.
Defined.

(** ** insert without values *)
Section InsertNothing.
Context (E : Engine).

(** C10, as amended.  With an empty value list the placeholder text is
    empty, the statement is [INSERT INTO <tableName> (<columns>) VALUES ()]
    and no parameter is bound.  The call fails when the file cannot be
    opened or the engine refuses that text, and succeeds when the engine
    takes it: whether it is a valid statement depends on the table and
    column texts, which are pasted in as they come. *)
Theorem insert_no_values_statement (tableName columns : string) :
  placeholders [] = ""
  ∧ insert_query tableName columns []
      = "INSERT INTO " +:+ tableName +:+ " (" +:+ columns +:+ ") VALUES ()"
  ∧ statement_of (CInsert tableName columns [])
      = ("INSERT INTO " +:+ tableName +:+ " (" +:+ columns +:+ ") VALUES ()",
         [])
  ∧ (∀ st : Process E,
       if openable E st then
         (insert E tableName columns [] st).1
         = match
             answer E st
               ("INSERT INTO " +:+ tableName +:+ " (" +:+ columns
                  +:+ ") VALUES ()") []
           with
           | Ok _ => Ok tt
           | Raise e => Raise e
           end
       else is_ok (insert E tableName columns [] st).1 = false).
Proof.
  split_and!; [reflexivity|reflexivity|reflexivity|].
  intros st. unfold insert.
  rewrite executeQuery_session, session_outcome.
  by destruct (openable E st).
Qed.

End InsertNothing.

(** C10, as stated, fails.  A table name that ends the statement with
    DEFAULT VALUES and a comment gives a text the engine takes: insert
    without values succeeds and the table has one more row. *)
Lemma insert_no_values_can_succeed :
  insert_query "users DEFAULT VALUES --" "name" []
    = "INSERT INTO users DEFAULT VALUES -- (name) VALUES ()"
  ∧ (insert Lax.engine "users DEFAULT VALUES --" "name" [] lax_users_db).1
    = Ok tt
  ∧ (selectAll Lax.engine "users"
       (insert Lax.engine "users DEFAULT VALUES --" "name" []
          lax_users_db).2).1 = Ok [[]].
Proof. split_and!; reflexivity. Qed.

(** ** update and delete: what is left to the engine

    For the statements that change rows the facade adds nothing to what the
    engine does: the outcome of the call is the outcome of the one statement,
    and the file holds what the statement left. *)
Section EngineDecides.
Context (E : Engine).
Implicit Types (st : Process E).

Lemma update_session t sv cond ps st :
  update E t sv cond ps st
  = session (λ _, tt)
      ("UPDATE " +:+ t +:+ " SET " +:+ sv +:+ " WHERE " +:+ cond) ps st.
Proof. unfold update. by rewrite executeQuery_session. Qed.

Lemma delete_session t cond ps st :
  delete_ E t cond ps st
  = session (λ _, tt) ("DELETE FROM " +:+ t +:+ " WHERE " +:+ cond) ps st.
Proof. unfold delete_. by rewrite executeQuery_session. Qed.

Lemma session_disk {A} (post : list Row → A) q ps st :
  openable E st = true →
  disk (session post q ps st).2
  = if transient (dbName (this st)) then disk st
    else <[dbName (this st) :=
             (exec E q ps (contents E st (dbName (this st)))).2]> (disk st).
Proof.
  unfold session. intros ->. cbn. by destruct (exec E q ps _).1.
Qed.

(** What the next handle on the instance's name finds after a session:
    what the statement left in the file, or nothing on a transient name. *)
Lemma contents_after_session {A} (post : list Row → A) q ps st :
  openable E st = true →
  contents E (session post q ps st).2 (dbName (this st))
  = if transient (dbName (this st)) then empty_db E
    else (exec E q ps (contents E st (dbName (this st)))).2.
Proof.
  intros Hopen. unfold contents at 1. rewrite session_disk by done.
  destruct (transient (dbName (this st))); [done|].
  by rewrite lookup_insert_eq.
Qed.

(** After a [delete] that succeeded, [selectWhere] with the same table,
    condition and parameters answers what the engine answers to the SELECT
    on the contents the DELETE left; on a transient name, on an empty
    database. *)
Lemma delete_then_selectWhere t cond ps st :
  is_ok (delete_ E t cond ps st).1 = true →
  (selectWhere E t cond ps (delete_ E t cond ps st).2).1
  = (exec E (selectWhere_query t cond) ps
       (if transient (dbName (this st)) then empty_db E
        else (exec E (delete_query t cond) ps
                (contents E st (dbName (this st)))).2)).1.
Proof.
  unfold delete_, selectWhere.
  rewrite executeQuery_session, fetchAll_session.
  cbn [default from_option id]. intros Hok.
  destruct (session_ok_inv E _ _ _ _ Hok) as (Hopen & rows & db' & Hexec & _).
  rewrite session_outcome. unfold answer, openable.
  rewrite session_this. fold (openable E st). rewrite Hopen.
  rewrite contents_after_session by done.
  by destruct (exec E (selectWhere_query t cond) ps _).1.
Qed.

End EngineDecides.

(** ** One call: what it executes and what it leaves alone *)
Section OneCall.
Context (E : Engine).
Implicit Types (st : Process E) (c : Call).

(** X1.  Every method executes exactly one statement, the text and the
    parameters [statement_of] lists for it, on what a new handle on the
    name of the instance finds.  On a name that opens, the call settles to
    what the engine answered, its error unchanged and its rows as the
    method hands them on; a file then holds what the statement left, while
    on a transient name nothing is kept; and one handle identity is used
    up.  On a name that does not open the call raises and the process is as
    it was. *)
Theorem every_call_is_one_statement c st :
  if openable E st then
    (perform E c st).1
    = match answer E st (statement_of c).1 (statement_of c).2 with
      | Ok rows => Ok (result_of c rows)
      | Raise e => Raise e
      end
    ∧ disk (perform E c st).2
      = (if transient (dbName (this st)) then disk st
         else <[dbName (this st) :=
                  (exec E (statement_of c).1 (statement_of c).2
                     (contents E st (dbName (this st)))).2]> (disk st))
    ∧ next_handle (perform E c st).2 = S (next_handle st)
  else
    is_ok (perform E c st).1 = false ∧ (perform E c st).2 = st.
Proof.
  rewrite perform_session. unfold session, answer.
  destruct (openable E st); [|done].
  cbn zeta. by destruct (exec E _ _ _).1.
Qed.

Lemma session_other_handle {A} (post : list Row → A) q ps st h :
  h ≠ next_handle st →
  handles (session post q ps st).2 !! h = handles st !! h.
Proof.
  intros Hne. unfold session. destruct (openable E st); [|done].
  cbn zeta. destruct (exec E q ps _).1; unfold released, leaked; cbn.
  - by rewrite lookup_delete_ne.
  - by rewrite lookup_insert_ne.
Qed.

(** X2.  A call opens and closes its own handle only: whether any other
    handle is open, and on which file, is the same before and after. *)
Theorem call_leaves_other_handles c st h :
  h ≠ next_handle st →
  handles (perform E c st).2 !! h = handles st !! h.
Proof. intros Hne. rewrite perform_session. by apply session_other_handle. Qed.

(** X4.  Handle identities never collide: when those in use lie below the
    counter they still do after a call, and a call that succeeded leaves
    exactly the handles it found open. *)
Theorem successful_call_restores_handles c st :
  fresh_handles E st →
  fresh_handles E (perform E c st).2
  ∧ (is_ok (perform E c st).1 = true →
     handles (perform E c st).2 = handles st).
Proof.
  intros Hfresh. split.
  - by apply perform_fresh.
  - by apply handles_restored_on_success.
Qed.

End OneCall.

(** The handle a failed call left open is still open after the next call. *)
Lemma call_leaves_other_handles_witness :
  handles (perform Mem.engine (CCreateTable "users" "name TEXT")
             (calls Mem.engine [CSelectAll "missing"] example_db)).2 !! 0
  = Some "example.db".
Proof.
  rewrite (call_leaves_other_handles Mem.engine
             (CCreateTable "users" "name TEXT")
             (calls Mem.engine [CSelectAll "missing"] example_db) 0).
  - reflexivity.
  - vm_compute. lia.
Defined.

Lemma successful_call_restores_handles_witness :
  fresh_handles Mem.engine (perform Mem.engine (CSelectAll "users") users_db).2
  ∧ (is_ok (perform Mem.engine (CSelectAll "users") users_db).1 = true →
     handles (perform Mem.engine (CSelectAll "users") users_db).2
     = handles users_db).
Proof.
  apply (successful_call_restores_handles Mem.engine
           (CSelectAll "users") users_db).
  intros h [f Hf]. vm_compute in Hf. discriminate.
Defined.

(** ** Calls in sequence *)
Section Sequences.
Context (E : Engine).
Implicit Types (st : Process E) (c : Call) (cs : list Call).

Lemma perform_this c st : this (perform E c st).2 = this st.
Proof. rewrite perform_session. apply session_this. Qed.

Lemma perform_openable c st : openable E (perform E c st).2 = openable E st.
Proof. unfold openable. by rewrite perform_this. Qed.

Lemma perform_raise_handles c st :
  openable E st = true →
  is_ok (perform E c st).1 = false →
  handles (perform E c st).2
  = <[next_handle st := dbName (this st)]> (handles st).
Proof.
  rewrite perform_session. unfold session. intros ->.
  cbn zeta. by destruct (exec E _ _ _).1.
Qed.

Lemma fresh_next_free st :
  fresh_handles E st → handles st !! next_handle st = None.
Proof.
  intros Hfresh.
  destruct (handles st !! next_handle st) as [f|] eqn:Hh; [|done].
  specialize (Hfresh (next_handle st) (mk_is_Some _ _ Hh)). lia.
Qed.

(** X5.  The handles left open count the failures: a caller that starts
    with fresh handle identities on a file that opens, and makes any calls
    one after the other, ends with as many more open handles as calls
    raised. *)
Theorem open_handles_count_failures cs st :
  fresh_handles E st →
  openable E st = true →
  fresh_handles E (calls E cs st)
  ∧ size (handles (calls E cs st)) = size (handles st) + failures E cs st.
Proof.
  revert st. induction cs as [|c cs IH]; intros st Hfresh Hopen.
  - cbn. split; [done|lia].
  - cbn [calls failures].
    destruct (IH (perform E c st).2) as [Hfresh' Hsize].
    { by apply perform_fresh. }
    { by rewrite perform_openable. }
    split; [done|]. rewrite Hsize.
    destruct (is_ok (perform E c st).1) eqn:Hok.
    + rewrite handles_restored_on_success by done. lia.
    + rewrite perform_raise_handles by done.
      rewrite map_size_insert_None by by apply fresh_next_free. lia.
Qed.

(** X6.  On a file that cannot be opened nothing ever happens: whatever the
    calls, each of them raises and the process ends as it started. *)
Theorem unopenable_file_nothing_happens cs st :
  openable E st = false →
  calls E cs st = st ∧ failures E cs st = length cs.
Proof.
  intros Hopen. induction cs as [|c cs [IHc IHf]]; [done|].
  cbn [calls failures length].
  rewrite perform_session, session_cannot_open by done.
  cbn [fst snd is_ok]. rewrite IHc, IHf. by split.
Qed.

(** X7.  Calls meet through the file only: what a call settles to is what
    the engine answers to its statement on the contents the statement of the
    call before left, whether that call succeeded or raised and left its
    handle open.  On a transient name they do not meet at all: the second
    call finds an empty database. *)
Theorem second_call_sees_what_first_left (c1 c2 : Call) st :
  openable E st = true →
  (perform E c2 (perform E c1 st).2).1
  = match
      (exec E (statement_of c2).1 (statement_of c2).2
         (if transient (dbName (this st)) then empty_db E
          else (exec E (statement_of c1).1 (statement_of c1).2
                  (contents E st (dbName (this st)))).2)).1
    with
    | Ok rows => Ok (result_of c2 rows)
    | Raise e => Raise e
    end.
Proof.
  intros Hopen.
  rewrite (perform_session E c2), session_outcome.
  rewrite perform_openable, Hopen. unfold answer.
  rewrite perform_this, perform_session, contents_after_session by done.
  done.
Qed.

End Sequences.

(** Two of the four calls of the script raise: two handles stay open. *)
Lemma open_handles_count_failures_witness :
  failures Mem.engine example_script example_db = 2
  ∧ size (handles (calls Mem.engine example_script example_db)) = 2.
Proof.
  split; [reflexivity|].
  rewrite (proj2 (open_handles_count_failures Mem.engine example_script
                    example_db (boot_fresh Mem.engine _) eq_refl)).
  reflexivity.
Defined.

(** The small engine does not open the empty file name. *)
Lemma unopenable_file_nothing_happens_witness :
  calls Mem.engine example_script (boot Mem.engine (constructor ""))
  = boot Mem.engine (constructor "")
  ∧ failures Mem.engine example_script (boot Mem.engine (constructor "")) = 4.
Proof.
  apply (unopenable_file_nothing_happens Mem.engine example_script
           (boot Mem.engine (constructor ""))).
  reflexivity.
Defined.

(** In a file the table made by the first call is there for the second; on
    [':memory:'] it is not. *)
Lemma second_call_sees_what_first_left_witness :
  (perform Mem.engine (CSelectAll "users")
     (perform Mem.engine (CCreateTable "users" "name TEXT") example_db).2).1
  = Ok (RRows [])
  ∧ (perform Mem.engine (CSelectAll "users")
       (perform Mem.engine (CCreateTable "users" "name TEXT") memory_db).2).1
    = Raise "SQLITE_ERROR: no such table".
Proof.
  split.
  - rewrite (second_call_sees_what_first_left Mem.engine
               (CCreateTable "users" "name TEXT") (CSelectAll "users")
               example_db eq_refl).
    reflexivity.
  - rewrite (second_call_sees_what_first_left Mem.engine
               (CCreateTable "users" "name TEXT") (CSelectAll "users")
               memory_db eq_refl).
    reflexivity.
Defined.

(** ** More on the statement texts *)
Section MoreTexts.
Context (E : Engine).

Lemma length_append (a b : string) :
  String.length (a +:+ b) = String.length a + String.length b.
Proof.
  induction a as [|d a IH]; [done|].
  change (String d a +:+ b) with (String d (a +:+ b)).
  cbn [String.length]. by rewrite IH.
Qed.

(** X8.  The values of an [insert] never enter the statement text: two
    value lists of the same length give the same text, and the values
    themselves travel as the bound parameters, in order. *)
Theorem insert_text_ignores_values
  (tableName columns : string) (values values' : list Value) :
  length values = length values' →
  insert_query tableName columns values
    = insert_query tableName columns values'
  ∧ statement_of (CInsert tableName columns values)
    = (insert_query tableName columns values', values).
Proof.
  intros Hlen. cbn [statement_of].
  unfold insert_query. by rewrite !placeholders_replicate, Hlen.
Qed.

(** X9.  Only [insert] writes placeholders of its own.  The texts of the
    other methods hold the marks of the fragments they were given and no
    more, so the parameters such a statement takes are those of the
    caller's table, column, assignment, condition and ordering texts. *)
Theorem templates_add_no_placeholder (t cols sv cond ob : string) :
  count_char "?" (createTable_query t cols)
    = count_char "?" t + count_char "?" cols
  ∧ count_char "?" (update_query t sv cond)
    = count_char "?" t + count_char "?" sv + count_char "?" cond
  ∧ count_char "?" (delete_query t cond)
    = count_char "?" t + count_char "?" cond
  ∧ count_char "?" (selectAll_query t) = count_char "?" t
  ∧ count_char "?" (selectWhere_query t cond)
    = count_char "?" t + count_char "?" cond
  ∧ count_char "?" (selectAllOrdered_query t ob)
    = count_char "?" t + count_char "?" ob.
Proof.
  unfold createTable_query, update_query, delete_query, selectAll_query,
    selectWhere_query, selectAllOrdered_query.
  rewrite !count_char_append. cbn. split_and!; lia.
Qed.

(** X10.  The fragments are pasted in as they come: a table name that
    carries a WHERE or an ORDER BY clause makes [selectAll] the same call as
    [selectWhere] without parameters, or as [selectAllOrdered]. *)
Theorem selectAll_takes_any_fragment (t cond ob : string) (st : Process E) :
  selectAll E (t +:+ " WHERE " +:+ cond) st = selectWhere E t cond [] st
  ∧ selectAll E (t +:+ " ORDER BY " +:+ ob) st = selectAllOrdered E t ob st.
Proof.
  unfold selectAll, selectWhere, selectAllOrdered.
  rewrite !fetchAll_session. by split.
Qed.

Lemma length_join_marks n :
  String.length (join ", " (replicate n "?")) = 3 * n - 2.
Proof.
  induction n as [|n IH]; [done|].
  destruct n as [|n]; [done|].
  replace (join ", " (replicate (S (S n)) "?"))
    with ("?, " +:+ join ", " (replicate (S n) "?")) by reflexivity.
  rewrite length_append, IH. cbn [String.length]. lia.
Qed.

(** X11.  The placeholder text of [n] values is [3 n - 2] characters long
    (empty for no value): a mark per value and a two-character separator
    between neighbours, so the INSERT text grows by three characters per
    value. *)
Theorem placeholders_length (tableName columns : string) (values : list Value) :
  String.length (placeholders values) = 3 * length values - 2
  ∧ String.length (insert_query tableName columns values)
    = 25 + String.length tableName + String.length columns
      + (3 * length values - 2).
Proof.
  assert (Hp : String.length (placeholders values) = 3 * length values - 2)
    by (rewrite placeholders_replicate; apply length_join_marks).
  split; [done|].
  unfold insert_query. rewrite !length_append, Hp. cbn [String.length]. lia.
Qed.

End MoreTexts.

Lemma insert_text_ignores_values_witness :
  insert_query "users" "name, email" [VText "a"; VText "b"]
    = insert_query "users" "name, email" [VNull; VNum 7]
  ∧ statement_of (CInsert "users" "name, email" [VText "a"; VText "b"])
    = ("INSERT INTO users (name, email) VALUES (?, ?)",
       [VText "a"; VText "b"]).
Proof.
  apply (insert_text_ignores_values
           "users" "name, email" [VText "a"; VText "b"] [VNull; VNum 7]).
  reflexivity.
Defined.
